(** * claude-task-master: the two maintenance scripts

    A shallow embedding of [scripts/set-executable.js] and
    [scripts/package-and-install.js].  Both are straight-line Node programs
    that talk to the file system, the console and (for the installer) to
    child processes.  The embedding threads an explicit [world] (the files
    on disk and the trace of every effect, in program order) through a
    small monad whose computations complete normally, by a thrown [Error],
    or by [process.exit]. *)

From Stdlib Require Import ZArith NArith List Ascii String Lia.
From stdpp Require Import gmap list.

Local Open Scope Z_scope.

(* ===================================================================== *)
(** ** JavaScript strings *)
(* ===================================================================== *)

(** A JavaScript string is a sequence of UTF-16 code units. *)
Abbreviation jsstring := (list N).

Module JsString.

(** A literal of the source, one code unit per character. *)
Definition js (s : string) : jsstring :=
  map N_of_ascii (list_ascii_of_string s).

(** ECMAScript [WhiteSpace] and [LineTerminator] code points: what
    [String.prototype.trim] strips.  All of them are in the basic plane,
    so they are single code units. *)
Definition is_whitespace (c : N) : bool :=
  ((c =? 0x9) || (c =? 0xA) || (c =? 0xB) || (c =? 0xC) || (c =? 0xD)
   || (c =? 0x20) || (c =? 0xA0) || (c =? 0x1680)
   || ((0x2000 <=? c) && (c <=? 0x200A))
   || (c =? 0x2028) || (c =? 0x2029) || (c =? 0x202F) || (c =? 0x205F)
   || (c =? 0x3000) || (c =? 0xFEFF))%N.

(** A run of such code units. *)
Definition blank (s : jsstring) : Prop :=
  Forall (fun c => is_whitespace c = true) s.

Fixpoint trimStart (s : jsstring) : jsstring :=
  match s with
  | c :: s' => if is_whitespace c then trimStart s' else s
  | [] => []
  end.

Definition trimEnd (s : jsstring) : jsstring :=
  rev (trimStart (rev s)).

(** [s.trim()] *)
Definition trim (s : jsstring) : jsstring :=
  trimEnd (trimStart s).

End JsString.

Import JsString.

(* ===================================================================== *)
(** ** The Node runtime seen by the scripts *)
(* ===================================================================== *)

Module Node.

(** A thrown JavaScript [Error]; the scripts only read [message]. *)
Record Error : Type := mkError { message : jsstring }.

(** The arguments the scripts hand to [console.log] / [console.error]. *)
Inductive jsval : Type :=
| VStr (s : jsstring)
| VErr (e : Error).

(** The options objects used with [execSync]. *)
Inductive exec_options : Type :=
| Encoding_utf8      (* { encoding: 'utf-8' } *)
| Stdio_inherit.     (* { stdio: 'inherit' }  *)

(** Every effect of a run, recorded when the call is made (whether or
    not it then throws). *)
Inductive event : Type :=
| EvLog (args : list jsval)
| EvError (args : list jsval)
| EvExec (cmd : jsstring) (opts : exec_options)
| EvExists (p : jsstring)
| EvUnlink (p : jsstring)
| EvStat (p : jsstring)
| EvChmod (p : jsstring) (mode : Z).

(** The disk maps each path that names something, as the script spells
    it, to the [st_mode] found there (file type and permission bits;
    [0o100644] for a regular file with mode 0644). *)
Record world : Type := mkWorld {
  disk : gmap jsstring Z;
  trace : list event
}.

Definition emit (ev : event) (w : world) : world :=
  {| disk := disk w; trace := trace w ++ [ev] |}.

Definition with_disk (fs : gmap jsstring Z) (w : world) : world :=
  {| disk := fs; trace := trace w |}.

(** How a statement list completes. *)
Inductive completion (A : Type) : Type :=
| Normal (a : A)
| Throw (e : Error)
| Exit (code : Z).
Arguments Normal {A} a.
Arguments Throw {A} e.
Arguments Exit {A} code.

Definition js_m (A : Type) : Type := world -> completion A * world.

Definition ret {A} (a : A) : js_m A := fun w => (Normal a, w).

Definition bind {A B} (m : js_m A) (k : A -> js_m B) : js_m B :=
  fun w =>
    match m w with
    | (Normal a, w') => k a w'
    | (Throw e, w') => (Throw e, w')
    | (Exit c, w') => (Exit c, w')
    end.

(** [throw e] *)
Definition throw {A} (e : Error) : js_m A := fun w => (Throw e, w).

(** [try { m } catch (error) { h error }]: only a thrown value reaches
    the handler, [process.exit] does not. *)
Definition try_catch {A} (m : js_m A) (h : Error -> js_m A) : js_m A :=
  fun w =>
    match m w with
    | (Throw e, w') => h e w'
    | r => r
    end.

(** [process.exit(code)] *)
Definition process_exit {A} (code : Z) : js_m A := fun w => (Exit code, w).

Definition console_log (args : list jsval) : js_m unit :=
  fun w => (Normal tt, emit (EvLog args) w).

Definition console_error (args : list jsval) : js_m unit :=
  fun w => (Normal tt, emit (EvError args) w).

(** An octal literal of the source, most significant digit first:
    [octal [1;1;1]] is [0o111]. *)
Definition octal (digits : list Z) : Z :=
  fold_left (fun n d => 8 * n + d) digits 0.

(** *** [fs] *)

(** The system error of a call on a path that names nothing. *)
Definition ENOENT (syscall : string) (p : jsstring) : Error :=
  mkError (js "ENOENT: no such file or directory, " ++ js syscall
             ++ js " '" ++ p ++ js "'").

Record Stats : Type := mkStats { mode : Z }.

(** The calls the operating system can refuse. *)
Inductive syscall : Type := Stat | Chmod | Unlink.

(** What the operating system refuses during a run, for reasons the disk
    map does not show (ownership, a read-only mount, a directory where a
    file is expected, a file where a directory is expected, ...): the
    system error of the call on that path, if it is refused. *)
Abbreviation refusal := (syscall -> jsstring -> option Error)%type.

(** [fs.existsSync(p)] never throws. *)
Definition existsSync (p : jsstring) : js_m bool :=
  fun w => (Normal (bool_decide (is_Some (disk w !! p))),
            emit (EvExists p) w).

(** [fs.unlinkSync(p)]: throws, and removes nothing, when the call is
    refused or the path names nothing. *)
Definition unlinkSync (os : refusal) (p : jsstring) : js_m unit :=
  fun w =>
    let w' := emit (EvUnlink p) w in
    match os Unlink p with
    | Some e => (Throw e, w')
    | None =>
        match disk w !! p with
        | Some _ => (Normal tt, with_disk (delete p (disk w)) w')
        | None => (Throw (ENOENT "unlink" p), w')
        end
    end.

(** [fs.statSync(p)] *)
Definition statSync (os : refusal) (p : jsstring) : js_m Stats :=
  fun w =>
    let w' := emit (EvStat p) w in
    match os Stat p with
    | Some e => (Throw e, w')
    | None =>
        match disk w !! p with
        | Some m => (Normal (mkStats m), w')
        | None => (Throw (ENOENT "stat" p), w')
        end
    end.

(** The twelve permission bits. *)
Definition S_IALLUGO : Z := octal [7; 7; 7; 7].

(** chmod(2) replaces the permission bits of [st_mode] by those of its
    argument and keeps the rest (the file type). *)
Definition chmod_mode (old new : Z) : Z :=
  Z.lor (Z.land old (Z.lnot S_IALLUGO)) (Z.land new S_IALLUGO).

(** [fs.chmodSync(p, m)]: throws, and changes nothing, when the call is
    refused or the path names nothing. *)
Definition chmodSync (os : refusal) (p : jsstring) (m : Z) : js_m unit :=
  fun w =>
    let w' := emit (EvChmod p m) w in
    match os Chmod p with
    | Some e => (Throw e, w')
    | None =>
        match disk w !! p with
        | Some old =>
            (Normal tt, with_disk (<[p := chmod_mode old m]> (disk w)) w')
        | None => (Throw (ENOENT "chmod" p), w')
        end
    end.

(** *** [child_process] *)

(** What running a command line does: it may change the disk, and it
    either fails (non-zero exit status: [execSync] throws) or yields its
    standard output. *)
Abbreviation shell := (jsstring -> gmap jsstring Z ->
                       (Error + jsstring) * gmap jsstring Z)%type.

(** [execSync(cmd, opts)].  With [stdio: 'inherit'] the child writes to
    the terminal and nothing is captured. *)
Definition execSync (sh : shell) (cmd : jsstring) (opts : exec_options)
  : js_m jsstring :=
  fun w =>
    let '(r, fs') := sh cmd (disk w) in
    let w' := with_disk fs' (emit (EvExec cmd opts) w) in
    match r with
    | inl e => (Throw e, w')
    | inr out =>
        (Normal match opts with Encoding_utf8 => out | Stdio_inherit => [] end,
         w')
    end.

(** *** Language operators *)

(** [ToInt32] of an integral Number. *)
Definition ToInt32 (x : Z) : Z := (x + 2 ^ 31) mod 2 ^ 32 - 2 ^ 31.

(** [a | b] *)
Definition bit_or (a b : Z) : Z := Z.lor (ToInt32 a) (ToInt32 b).

(** [l.forEach(f)] *)
Fixpoint forEach {A} (l : list A) (f : A -> js_m unit) : js_m unit :=
  match l with
  | [] => ret tt
  | x :: l' => bind (f x) (fun _ => forEach l' f)
  end.

(** The paths handed to [statSync] along a trace, in call order. *)
Fixpoint stat_calls (tr : list event) : list jsstring :=
  match tr with
  | EvStat p :: tr' => p :: stat_calls tr'
  | _ :: tr' => stat_calls tr'
  | [] => []
  end.

(** The argument lists of the [console.error] calls along a trace. *)
Fixpoint error_calls (tr : list event) : list (list jsval) :=
  match tr with
  | EvError args :: tr' => args :: error_calls tr'
  | _ :: tr' => error_calls tr'
  | [] => []
  end.

(** Running a script file on a disk: the exit status and the final
    world.  Falling off the end exits with 0, an uncaught exception
    with 1. *)
Definition node (script : js_m unit) (fs : gmap jsstring Z) : Z * world :=
  match script (mkWorld fs []) with
  | (Normal _, w) => (0, w)
  | (Throw _, w) => (1, w)
  | (Exit c, w) => (c, w)
  end.

End Node.

Import Node.

Declare Scope js_scope.
Delimit Scope js_scope with js.
Notation "'do' x <- m ; k" := (bind m (fun x => k))
  (at level 10, x name, m at level 100, k at level 200,
   format "'[v' 'do'  x  <-  m ; '/' k ']'") : js_scope.
Notation "m ;; k" := (bind m (fun _ => k))
  (at level 100, k at level 200, right associativity,
   format "'[v' m ;; '/' k ']'") : js_scope.

(* ===================================================================== *)
(** ** scripts/set-executable.js *)
(* ===================================================================== *)

Module SetExecutable.
Section Script.

(** What the operating system refuses, and [path.join] of two segments. *)
Variable os : refusal.
Variable path_join : jsstring -> jsstring -> jsstring.

(** The three execute bits, [0o111]. *)
Definition X_BITS : Z := octal [1; 1; 1].

Definition files : list jsstring :=
  [ path_join (js "bin") (js "task-master.js");
    path_join (js "mcp-server") (js "server.js") ].

(** The guarded block of the loop body. *)
Definition try_block (file : jsstring) : js_m unit :=
  (do stats <- statSync os file;
   chmodSync os file (bit_or (mode stats) X_BITS);;
   console_log [VStr (js "Set executable permissions for: " ++ file)])%js.

Definition catch_block (file : jsstring) (error : Error) : js_m unit :=
  console_error
    [VStr (js "Failed to set executable permissions for: " ++ file);
     VErr error].

(** The line the handler prints for [file] and the caught [e]. *)
Definition failed_line (file : jsstring) (e : Error) : event :=
  EvError [VStr (js "Failed to set executable permissions for: " ++ file);
           VErr e].

Definition each (file : jsstring) : js_m unit :=
  try_catch (try_block file) (catch_block file).

(** The loop over any list of paths. *)
Definition set_executable (l : list jsstring) : js_m unit :=
  forEach l each.

(** The script. *)
Definition main : js_m unit := set_executable files.

(** *** Vocabulary for its properties *)

(** Neither [statSync] nor [chmodSync] is refused on the path. *)
Definition allowed (p : jsstring) : bool :=
  match os Stat p, os Chmod p with
  | None, None => true
  | _, _ => false
  end.

(** What the loop over [l] makes of the entry [old] of path [p]. *)
Definition after_loop (l : list jsstring) (p : jsstring) (old : option Z)
  : option Z :=
  if decide (p ∈ l)
  then (if allowed p then (fun m => Z.lor m X_BITS) <$> old else old)
  else old.

(** The error the guarded block throws on a path, if any: that of a
    refused stat, else ENOENT when the path names nothing, else that of a
    refused chmod. *)
Definition failure (fs : gmap jsstring Z) (p : jsstring) : option Error :=
  match os Stat p with
  | Some e => Some e
  | None =>
      match fs !! p with
      | None => Some (ENOENT "stat" p)
      | Some _ => os Chmod p
      end
  end.

(** What the script prints for a path it has made executable ... *)
Definition done_args (file : jsstring) : list jsval :=
  [VStr (js "Set executable permissions for: " ++ file)].


End Script.
End SetExecutable.

(* ===================================================================== *)
(** ** scripts/package-and-install.js *)
(* ===================================================================== *)

Module PackageAndInstall.
Section Script.

(** What the operating system refuses, the commands' behaviour,
    [process.cwd()] and [path.join]. *)
Variable os : refusal.
Variable sh : shell.
Variable cwd : jsstring.
Variable path_join : jsstring -> jsstring -> jsstring.

Definition pack_cmd : jsstring := js "npm pack".

Definition install_cmd (tgzFile : jsstring) : jsstring :=
  js "npm install -g " ++ path_join cwd tgzFile.

Definition try_block : js_m unit :=
  (console_log [VStr (js "Packing the project...")];;
   do output <- execSync sh pack_cmd Encoding_utf8;
   let tgzFile := trim output in
   do found <- existsSync tgzFile;
   (if negb found
    then throw (mkError (js "Failed to create .tgz file: " ++ tgzFile))
    else ret tt);;
   console_log [VStr (js "Package created: " ++ tgzFile)];;
   console_log [VStr (js "Installing the package globally...")];;
   execSync sh (install_cmd tgzFile) Stdio_inherit;;
   console_log [VStr (js "Package installed globally successfully!")];;
   console_log [VStr (js "Cleaning up...")];;
   unlinkSync os tgzFile;;
   console_log [VStr (js "Temporary package file removed.")])%js.

Definition catch_block (error : Error) : js_m unit :=
  (console_error [VStr (js "An error occurred:"); VStr (message error)];;
   process_exit 1)%js.

(** The script. *)
Definition main : js_m unit := try_catch try_block catch_block.

(** *** The shape of its traces *)

Definition said (s : jsstring) : event := EvLog [VStr s].

(** What the handler passes to [console.error] for the caught [e]. *)
Definition report (e : Error) : list jsval :=
  [VStr (js "An error occurred:"); VStr (message e)].

(** The error thrown when the archive is not there. *)
Definition not_created (tgzFile : jsstring) : Error :=
  mkError (js "Failed to create .tgz file: " ++ tgzFile).

(** The effects up to and including the existence check, ... *)
Definition until_check (tgzFile : jsstring) : list event :=
  [ said (js "Packing the project...");
    EvExec pack_cmd Encoding_utf8;
    EvExists tgzFile ].

(** ... those from there up to, not including, the install command, ... *)
Definition before_install (tgzFile : jsstring) : list event :=
  until_check tgzFile ++
  [ said (js "Package created: " ++ tgzFile);
    said (js "Installing the package globally...") ].

(** ... and those after it, up to and including the delete call. *)
Definition until_unlink (tgzFile : jsstring) : list event :=
  [ said (js "Package installed globally successfully!");
    said (js "Cleaning up...");
    EvUnlink tgzFile ].

End Script.
End PackageAndInstall.

(* ===================================================================== *)
(** ** Concrete scenarios *)
(* ===================================================================== *)

Module Scenario.

(** A regular file with mode 0644, and with mode 0755. *)
Definition rw_r__r__ : Z := octal [1; 0; 0; 6; 4; 4].
Definition rwxr_xr_x : Z := octal [1; 0; 0; 7; 5; 5].

(** Two regular files with mode 0644. *)
Definition disk_ab : gmap jsstring Z :=
  <[js "a.js" := rw_r__r__]> (<[js "b.js" := rw_r__r__]> ∅).


Definition cwd : jsstring := js "/home/dev/task-master".

(** POSIX [path.join] on two plain segments. *)
Definition path_join (a b : jsstring) : jsstring := a ++ js "/" ++ b.

Definition tgz : jsstring := js "pkg-1.0.0.tgz".

(** [npm pack] prints the archive name and a newline. *)
Definition pack_output : jsstring := tgz ++ [10%N].

Definition command_failed : Error := mkError (js "Command failed").

(** Nothing is refused. *)
Definition permissive : refusal := fun _ _ => None.

Definition EPERM (syscall : string) (p : jsstring) : Error :=
  mkError (js "EPERM: operation not permitted, " ++ js syscall
             ++ js " '" ++ p ++ js "'").

(** [a.js] belongs to somebody else: its mode cannot be changed. *)
Definition not_owner_of_a : refusal :=
  fun call p =>
    match call with
    | Chmod => if decide (p = js "a.js")
               then Some (EPERM "chmod" p) else None
    | _ => None
    end.

(** The directory is not writable: nothing can be unlinked. *)
Definition no_unlink : refusal :=
  fun call p =>
    match call with
    | Unlink => Some (EPERM "unlink" p)
    | _ => None
    end.

(** Both commands work; installing leaves the archive in place. *)
Definition sh_ok : shell :=
  fun cmd fs =>
    if decide (cmd = js "npm pack")
    then (inr pack_output, <[tgz := rw_r__r__]> fs)
    else (inr [], fs).

(** Packing works, installing fails. *)
Definition sh_install_fails : shell :=
  fun cmd fs =>
    if decide (cmd = js "npm pack")
    then (inr pack_output, <[tgz := rw_r__r__]> fs)
    else (inl command_failed, fs).

(** Packing prints a name but writes no file. *)
Definition sh_no_archive : shell :=
  fun cmd fs =>
    if decide (cmd = js "npm pack") then (inr pack_output, fs)
    else (inr [], fs).

(** Packing itself fails. *)
Definition sh_pack_fails : shell :=
  fun cmd fs => (inl command_failed, fs).

(** Installing succeeds and consumes the archive. *)
Definition sh_install_removes : shell :=
  fun cmd fs =>
    if decide (cmd = js "npm pack")
    then (inr pack_output, <[tgz := rw_r__r__]> fs)
    else (inr [], delete tgz fs).

End Scenario.

(* ===================================================================== *)
(** ** Reading a trace *)
(* ===================================================================== *)

Module Observe.


(** The command lines handed to [execSync] along a trace. *)
Fixpoint exec_calls (tr : list event) : list jsstring :=
  match tr with
  | EvExec cmd _ :: tr' => cmd :: exec_calls tr'
  | _ :: tr' => exec_calls tr'
  | [] => []
  end.

(** A string with no blank at either end. *)
Definition stripped (s : jsstring) : Prop :=
  (forall c t, s = c :: t -> is_whitespace c = false)
  /\ (forall t c, s = t ++ [c] -> is_whitespace c = false).

End Observe.

(* ===================================================================== *)
(** ** Facts about [trim] *)
(* ===================================================================== *)

Section TrimFacts.

Lemma trimStart_split (s : jsstring) :
  exists l, blank l /\ s = l ++ trimStart s.
Proof.
  induction s as [|c s [l [Hl Hs]]]; simpl.
  - exists []. split; [constructor | reflexivity].
  - destruct (is_whitespace c) eqn:Hc.
    + exists (c :: l). split; [constructor; assumption |].
      simpl. congruence.
    + exists []. split; [constructor | reflexivity].
Qed.

Lemma trimStart_head (s : jsstring) c r :
  trimStart s = c :: r -> is_whitespace c = false.
Proof.
  induction s as [|d s IH]; simpl; [discriminate |].
  destruct (is_whitespace d) eqn:Hd; [exact IH |].
  intros [= <- _]. exact Hd.
Qed.

Lemma trimStart_fixed (s : jsstring) c r :
  s = c :: r -> is_whitespace c = false -> trimStart s = s.
Proof. intros -> Hc. simpl. rewrite Hc. reflexivity. Qed.

Lemma blank_rev (l : jsstring) : blank l -> blank (rev l).
Proof.
  unfold blank. rewrite !Forall_forall. intros H c Hc.
  apply H. apply list_elem_of_In. apply in_rev.
  apply list_elem_of_In. exact Hc.
Qed.

Lemma trimEnd_split (s : jsstring) :
  exists r, blank r /\ s = trimEnd s ++ r.
Proof.
  unfold trimEnd. destruct (trimStart_split (rev s)) as [l [Hl Hs]].
  exists (rev l). split; [apply blank_rev; exact Hl |].
  rewrite <- rev_app_distr, <- Hs, rev_involutive. reflexivity.
Qed.

Lemma trimEnd_last (s : jsstring) r c :
  trimEnd s = r ++ [c] -> is_whitespace c = false.
Proof.
  unfold trimEnd. intros H.
  apply (f_equal (@rev N)) in H.
  rewrite rev_involutive, rev_app_distr in H. simpl in H.
  eapply trimStart_head. exact H.
Qed.

Lemma trimStart_snoc (s : jsstring) (c : N) :
  is_whitespace c = false -> trimStart (s ++ [c]) = trimStart s ++ [c].
Proof.
  intros Hc. induction s as [|d s IH]; simpl.
  - rewrite Hc. reflexivity.
  - destruct (is_whitespace d); [exact IH | reflexivity].
Qed.

(** Stripping the end keeps a first code unit that is not blank. *)
Lemma trimEnd_cons (c : N) (s : jsstring) :
  is_whitespace c = false -> trimEnd (c :: s) = c :: trimEnd s.
Proof.
  intros Hc. unfold trimEnd. simpl.
  rewrite trimStart_snoc by exact Hc.
  rewrite rev_app_distr. reflexivity.
Qed.

Lemma trim_split (s : jsstring) :
  exists l r, blank l /\ blank r /\ s = l ++ trim s ++ r.
Proof.
  destruct (trimStart_split s) as [l [Hl Hs]].
  destruct (trimEnd_split (trimStart s)) as [r [Hr Ht]].
  exists l, r. repeat split; try assumption.
  unfold trim. rewrite <- Ht. exact Hs.
Qed.

Lemma trim_head (s : jsstring) c t :
  trim s = c :: t -> is_whitespace c = false.
Proof.
  unfold trim. destruct (trimStart s) as [|d u] eqn:Hd.
  - discriminate.
  - pose proof (trimStart_head _ _ _ Hd) as Hw.
    rewrite trimEnd_cons by exact Hw. intros [= <- _]. exact Hw.
Qed.

Lemma trim_last (s : jsstring) t c :
  trim s = t ++ [c] -> is_whitespace c = false.
Proof. unfold trim. apply trimEnd_last. Qed.

End TrimFacts.

(* ===================================================================== *)
(** ** Bit-level facts about modes *)
(* ===================================================================== *)

Section ModeBits.

Import SetExecutable.

Lemma ToInt32_congr (x : Z) : ToInt32 x mod 2 ^ 32 = x mod 2 ^ 32.
Proof.
  unfold ToInt32. rewrite Zminus_mod_idemp_l. f_equal. lia.
Qed.

Lemma ToInt32_low_bits (x i : Z) :
  0 <= i < 32 -> Z.testbit (ToInt32 x) i = Z.testbit x i.
Proof.
  intros Hi.
  rewrite <- (Z.mod_pow2_bits_low (ToInt32 x) 32 i) by lia.
  rewrite <- (Z.mod_pow2_bits_low x 32 i) by lia.
  rewrite ToInt32_congr. reflexivity.
Qed.

Lemma ToInt32_small (x : Z) : - 2 ^ 31 <= x < 2 ^ 31 -> ToInt32 x = x.
Proof.
  intros Hx. unfold ToInt32. rewrite Z.mod_small by lia. lia.
Qed.

(** On Numbers in the int32 range [|] is the mathematical or. *)
Lemma bit_or_small (a b : Z) :
  - 2 ^ 31 <= a < 2 ^ 31 -> - 2 ^ 31 <= b < 2 ^ 31 ->
  bit_or a b = Z.lor a b.
Proof.
  intros Ha Hb. unfold bit_or. rewrite !ToInt32_small by assumption.
  reflexivity.
Qed.

Lemma X_BITS_testbit (i : Z) :
  Z.testbit X_BITS i = bool_decide (i = 0 \/ i = 3 \/ i = 6).
Proof.
  change X_BITS with 73.
  destruct (Z.lt_ge_cases i 0) as [Hneg | Hpos].
  { rewrite Z.testbit_neg_r by exact Hneg.
    symmetry. apply bool_decide_eq_false. lia. }
  destruct (Z.lt_ge_cases i 7) as [Hlt | Hge].
  - assert (Hc : i = 0 \/ i = 1 \/ i = 2 \/ i = 3 \/ i = 4 \/ i = 5 \/ i = 6)
      by lia.
    destruct Hc as [-> | [-> | [-> | [-> | [-> | [-> | ->]]]]]];
      reflexivity.
  - rewrite Z.bits_above_log2; [| lia | simpl; lia].
    symmetry. apply bool_decide_eq_false. lia.
Qed.

Lemma S_IALLUGO_testbit (i : Z) :
  0 <= i -> Z.testbit S_IALLUGO i = bool_decide (i < 12).
Proof.
  intros Hi. change S_IALLUGO with (Z.ones 12).
  destruct (Z.lt_ge_cases i 12) as [Hlt | Hge].
  - rewrite Z.ones_spec_low by lia.
    symmetry. apply bool_decide_eq_true. exact Hlt.
  - rewrite Z.ones_spec_high by lia.
    symmetry. apply bool_decide_eq_false. lia.
Qed.

(** What the loop body stores: the permission bits of
    [stats.mode | 0o111] on top of the old file type, which is the old
    mode with the execute bits or-ed in. *)
Lemma chmod_mode_bit_or (old : Z) :
  chmod_mode old (bit_or old X_BITS) = Z.lor old X_BITS.
Proof.
  apply Z.bits_inj'. intros i Hi.
  unfold chmod_mode, bit_or.
  rewrite !Z.lor_spec, !Z.land_spec, Z.lor_spec, Z.lnot_spec by exact Hi.
  rewrite S_IALLUGO_testbit by exact Hi.
  rewrite (ToInt32_small X_BITS) by (change X_BITS with 73; lia).
  destruct (Z.lt_ge_cases i 12) as [Hlt | Hge].
  - rewrite ToInt32_low_bits by lia.
    rewrite (bool_decide_eq_true_2 (i < 12)) by exact Hlt.
    simpl. rewrite andb_false_r, !andb_true_r. reflexivity.
  - rewrite (bool_decide_eq_false_2 (i < 12)) by lia.
    simpl. rewrite andb_false_r, andb_true_r, orb_false_r.
    rewrite X_BITS_testbit.
    rewrite bool_decide_eq_false_2 by lia.
    rewrite orb_false_r. reflexivity.
Qed.


Lemma lor_X_BITS_idem (m : Z) :
  Z.lor (Z.lor m X_BITS) X_BITS = Z.lor m X_BITS.
Proof. rewrite <- Z.lor_assoc, Z.lor_diag. reflexivity. Qed.

End ModeBits.

(* ===================================================================== *)
(** ** set-executable.js: the loop *)
(* ===================================================================== *)

Section SetExecutableLoop.

Import SetExecutable.

Variable os : refusal.

Local Abbreviation try_block := (try_block os).
Local Abbreviation each := (each os).
Local Abbreviation set_executable := (set_executable os).

(** One iteration, run to the end: it always completes normally. *)
Lemma each_run (f : jsstring) (w : world) :
  each f w =
  match os Stat f with
  | Some e =>
      (Normal tt, mkWorld (disk w) (trace w ++ [EvStat f; failed_line f e]))
  | None =>
      match disk w !! f with
      | None =>
          (Normal tt,
           mkWorld (disk w)
             (trace w ++ [EvStat f; failed_line f (ENOENT "stat" f)]))
      | Some m =>
          match os Chmod f with
          | Some e =>
              (Normal tt,
               mkWorld (disk w)
                 (trace w ++
                    [EvStat f; EvChmod f (bit_or m X_BITS);
                     failed_line f e]))
          | None =>
              (Normal tt,
               mkWorld (<[f := Z.lor m X_BITS]> (disk w))
                 (trace w ++
                    [EvStat f; EvChmod f (bit_or m X_BITS);
                     EvLog (done_args f)]))
          end
      end
  end.
Proof.
  unfold SetExecutable.each, try_catch, SetExecutable.try_block,
    catch_block, bind, statSync, chmodSync, console_log, console_error,
    failed_line, done_args.
  destruct w as [fs tr]. unfold emit, with_disk. cbn [disk trace mode].
  destruct (os Stat f) as [e|]; cbn [disk trace mode].
  { rewrite <- !app_assoc. reflexivity. }
  destruct (fs !! f) as [m|] eqn:Hf; cbn [disk trace mode].
  - destruct (os Chmod f) as [e|]; cbn [disk trace mode].
    + rewrite <- !app_assoc. reflexivity.
    + rewrite Hf. cbn [disk trace mode].
      rewrite chmod_mode_bit_or, <- !app_assoc. reflexivity.
  - rewrite <- !app_assoc. reflexivity.
Qed.

Lemma each_normal (f : jsstring) (w : world) : fst (each f w) = Normal tt.
Proof.
  rewrite each_run.
  destruct (os Stat f), (disk w !! f), (os Chmod f); reflexivity.
Qed.

Lemma each_lookup (f p : jsstring) (w : world) :
  disk (snd (each f w)) !! p =
  if decide (p = f)
  then (if allowed os p then (fun m => Z.lor m X_BITS) <$> disk w !! p
        else disk w !! p)
  else disk w !! p.
Proof.
  rewrite each_run. unfold allowed.
  destruct (decide (p = f)) as [-> | Hne].
  - destruct (os Stat f); [reflexivity |].
    destruct (disk w !! f) as [m|] eqn:Hf.
    + destruct (os Chmod f); simpl; [exact Hf |].
      apply lookup_insert_eq.
    + simpl. rewrite Hf. destruct (os Chmod f); reflexivity.
  - destruct (os Stat f); [reflexivity |].
    destruct (disk w !! f) as [m|]; [| reflexivity].
    destruct (os Chmod f); simpl; [reflexivity |].
    apply lookup_insert_ne. congruence.
Qed.

Lemma each_trace (f : jsstring) (w : world) :
  exists evs, trace (snd (each f w)) = trace w ++ evs
              /\ stat_calls evs = [f].
Proof.
  rewrite each_run.
  destruct (os Stat f), (disk w !! f), (os Chmod f); simpl;
    eexists; (split; [reflexivity | reflexivity]).
Qed.

Lemma set_executable_cons (f : jsstring) (l : list jsstring) (w : world) :
  set_executable (f :: l) w = set_executable l (snd (each f w)).
Proof.
  unfold SetExecutable.set_executable. simpl. unfold bind.
  pose proof (each_normal f w) as Hn.
  destruct (each f w) as [[[]| |] w1]; simpl in *; try discriminate.
  reflexivity.
Qed.

Lemma set_executable_app (l1 l2 : list jsstring) (w : world) :
  set_executable (l1 ++ l2) w =
  set_executable l2 (snd (set_executable l1 w)).
Proof.
  revert w. induction l1 as [|f l1 IH]; intros w.
  - reflexivity.
  - simpl. rewrite !set_executable_cons. apply IH.
Qed.

Lemma set_executable_normal (l : list jsstring) (w : world) :
  fst (set_executable l w) = Normal tt.
Proof.
  revert w. induction l as [|f l IH]; intros w.
  - reflexivity.
  - rewrite set_executable_cons. apply IH.
Qed.

Lemma set_executable_lookup (l : list jsstring) (w : world) (p : jsstring) :
  disk (snd (set_executable l w)) !! p = after_loop os l p (disk w !! p).
Proof.
  unfold after_loop. revert w. induction l as [|f l IH]; intros w.
  - simpl. destruct (decide (p ∈ [])) as [Hin | _]; [| reflexivity].
    inversion Hin.
  - rewrite set_executable_cons, IH, each_lookup.
    destruct (decide (p = f)) as [-> | Hne].
    + rewrite (decide_True (P := f ∈ f :: l)) by left.
      destruct (decide (f ∈ l)); [| reflexivity].
      destruct (allowed os f); [| reflexivity].
      destruct (disk w !! f) as [m|]; simpl; [| reflexivity].
      rewrite lor_X_BITS_idem. reflexivity.
    + destruct (decide (p ∈ l)) as [Hin | Hnin].
      * rewrite (decide_True (P := p ∈ f :: l)) by (right; exact Hin).
        reflexivity.
      * rewrite (decide_False (P := p ∈ f :: l)); [reflexivity |].
        rewrite elem_of_cons. tauto.
Qed.

Lemma stat_calls_app (tr1 tr2 : list event) :
  stat_calls (tr1 ++ tr2) = stat_calls tr1 ++ stat_calls tr2.
Proof.
  induction tr1 as [|ev tr1 IH]; [reflexivity |].
  destruct ev; simpl; rewrite IH; reflexivity.
Qed.

Lemma set_executable_trace (l : list jsstring) (w : world) :
  exists evs, trace (snd (set_executable l w)) = trace w ++ evs
              /\ stat_calls evs = l.
Proof.
  revert w. induction l as [|f l IH]; intros w.
  - exists []. simpl. rewrite app_nil_r. split; reflexivity.
  - rewrite set_executable_cons.
    destruct (each_trace f w) as [ev1 [Ht1 Hs1]].
    destruct (IH (snd (each f w))) as [ev2 [Ht2 Hs2]].
    exists (ev1 ++ ev2). split.
    + rewrite Ht2, Ht1, app_assoc. reflexivity.
    + rewrite stat_calls_app, Hs1, Hs2. reflexivity.
Qed.

Lemma node_set_executable (l : list jsstring) (fs : gmap jsstring Z) :
  node (set_executable l) fs = (0, snd (set_executable l (mkWorld fs []))).
Proof.
  unfold node. pose proof (set_executable_normal l (mkWorld fs [])) as Hn.
  destruct (set_executable l (mkWorld fs [])) as [[[]| |] w];
    simpl in *; try discriminate. reflexivity.
Qed.

Lemma node_set_executable_lookup
    (l : list jsstring) (fs : gmap jsstring Z) (p : jsstring) :
  disk (snd (node (set_executable l) fs)) !! p = after_loop os l p (fs !! p).
Proof.
  rewrite node_set_executable. simpl.
  rewrite set_executable_lookup. reflexivity.
Qed.

End SetExecutableLoop.

(* ===================================================================== *)
(** ** set-executable.js: the properties *)
(* ===================================================================== *)

Section SetExecutableSpec.

Import SetExecutable.

Variable os : refusal.

Local Abbreviation try_block := (try_block os).
Local Abbreviation each := (each os).
Local Abbreviation set_executable := (set_executable os).

Lemma allowed_true (p : jsstring) :
  os Stat p = None -> os Chmod p = None -> allowed os p = true.
Proof. unfold allowed. intros -> ->. reflexivity. Qed.

Lemma after_loop_allowed (l : list jsstring) (p : jsstring) (m : Z) :
  p ∈ l -> os Stat p = None -> os Chmod p = None ->
  after_loop os l p (Some m) = Some (Z.lor m X_BITS).
Proof.
  intros Hin Hs Hc. unfold after_loop.
  rewrite decide_True by exact Hin.
  rewrite allowed_true by assumption. reflexivity.
Qed.


(** The script itself is the loop over its two fixed paths. *)
Corollary main_postcondition
    (path_join : jsstring -> jsstring -> jsstring)
    (fs : gmap jsstring Z) (p : jsstring) (m : Z) :
  p ∈ files path_join ->
  fs !! p = Some m ->
  os Stat p = None ->
  os Chmod p = None ->
  disk (snd (node (main os path_join) fs)) !! p = Some (Z.lor m X_BITS).
Proof.
  intros Hin Hm Hs Hc. unfold main.
  rewrite node_set_executable_lookup, Hm.
  apply after_loop_allowed; assumption.
Qed.



(** The guarded block throws when [statSync] is refused, when the path
    names nothing, and when [chmodSync] is refused; in each case it has
    changed nothing on disk. *)
Lemma try_block_throws (f : jsstring) (w wb : world) (e : Error) :
  try_block f w = (Throw e, wb) ->
  disk wb = disk w /\ failure os (disk w) f = Some e.
Proof.
  unfold SetExecutable.try_block, failure, bind, statSync, chmodSync,
    console_log.
  destruct w as [fs tr]. unfold emit, with_disk. cbn [disk trace mode].
  destruct (os Stat f) as [e1|]; cbn [disk trace mode].
  { intros [= <- <-]. split; reflexivity. }
  destruct (fs !! f) as [m|] eqn:Hf; cbn [disk trace mode].
  - destruct (os Chmod f) as [e2|]; cbn [disk trace mode].
    + intros [= <- <-]. split; reflexivity.
    + rewrite Hf. discriminate.
  - intros [= <- <-]. split; reflexivity.
Qed.

(** A refused [chmodSync] on a path that is there throws out of the
    guarded block, after the stat and the chmod call. *)
Lemma try_block_chmod_refused (f : jsstring) (w : world) (m : Z) (e : Error) :
  os Stat f = None -> disk w !! f = Some m -> os Chmod f = Some e ->
  try_block f w =
    (Throw e, emit (EvChmod f (bit_or m X_BITS)) (emit (EvStat f) w)).
Proof.
  intros Hs Hf Hc.
  unfold SetExecutable.try_block, bind, statSync, chmodSync.
  rewrite Hs, Hf. cbn [mode]. rewrite Hc. reflexivity.
Qed.

Lemma each_caught (f : jsstring) (w wb : world) (e : Error) :
  try_block f w = (Throw e, wb) ->
  each f w = (Normal tt, emit (failed_line f e) wb).
Proof.
  intros Ht. unfold SetExecutable.each, try_catch. rewrite Ht. reflexivity.
Qed.

(** C6. When the guarded block (stat, then chmod) throws [e] on a path
    [f] of the list, whichever of the two calls it comes from, the error
    is caught and logged together with [f], nothing on disk has been
    changed by that iteration, the loop goes on with the paths after [f],
    every path of the list is attempted in list order, and the run ends
    normally. *)
Theorem per_item_failure_isolation
    (l1 l2 : list jsstring) (f : jsstring) (fs : gmap jsstring Z)
    (e : Error) (wb : world) :
  try_block f (snd (set_executable l1 (mkWorld fs []))) = (Throw e, wb) ->
  set_executable (l1 ++ f :: l2) (mkWorld fs []) =
    set_executable l2 (emit (failed_line f e) wb)
  /\ disk wb = disk (snd (set_executable l1 (mkWorld fs [])))
  /\ fst (node (set_executable (l1 ++ f :: l2)) fs) = 0
  /\ failed_line f e ∈ trace (snd (node (set_executable (l1 ++ f :: l2)) fs))
  /\ stat_calls (trace (snd (node (set_executable (l1 ++ f :: l2)) fs)))
     = l1 ++ f :: l2.
Proof.
  intros Ht.
  assert (Hrun : set_executable (l1 ++ f :: l2) (mkWorld fs []) =
                 set_executable l2 (emit (failed_line f e) wb)).
  { rewrite set_executable_app, set_executable_cons.
    rewrite (each_caught _ _ _ _ Ht). reflexivity. }
  split; [exact Hrun |].
  split; [exact (proj1 (try_block_throws _ _ _ _ Ht)) |].
  rewrite node_set_executable. simpl.
  split; [reflexivity | split].
  - rewrite Hrun.
    destruct (set_executable_trace os l2 (emit (failed_line f e) wb))
      as [evs [-> _]].
    simpl. rewrite !elem_of_app. left. right. left.
  - destruct (set_executable_trace os (l1 ++ f :: l2) (mkWorld fs []))
      as [evs [-> Hs]].
    exact Hs.
Qed.

End SetExecutableSpec.

Section SetExecutableScenarios.

Import SetExecutable Scenario.





Lemma per_item_failure_isolation_witness :
  try_block not_owner_of_a (js "a.js")
    (snd (set_executable not_owner_of_a [] (mkWorld disk_ab []))) =
    (Throw (EPERM "chmod" (js "a.js")),
     mkWorld disk_ab
       [EvStat (js "a.js"); EvChmod (js "a.js") rwxr_xr_x])
  /\ fst (node (set_executable not_owner_of_a [js "a.js"; js "b.js"])
            disk_ab) = 0
  /\ failed_line (js "a.js") (EPERM "chmod" (js "a.js"))
       ∈ trace (snd (node (set_executable not_owner_of_a
                             [js "a.js"; js "b.js"]) disk_ab))
  /\ stat_calls
       (trace (snd (node (set_executable not_owner_of_a
                            [js "a.js"; js "b.js"]) disk_ab)))
     = [js "a.js"; js "b.js"]
  /\ disk (snd (node (set_executable not_owner_of_a [js "a.js"; js "b.js"])
                  disk_ab)) !! js "a.js" = Some rw_r__r__
  /\ disk (snd (node (set_executable not_owner_of_a [js "a.js"; js "b.js"])
                  disk_ab)) !! js "b.js" = Some rwxr_xr_x.
Proof.
  split; [reflexivity |].
  destruct (per_item_failure_isolation not_owner_of_a
              [] [js "b.js"] (js "a.js") disk_ab
              (EPERM "chmod" (js "a.js"))
              (mkWorld disk_ab
                 [EvStat (js "a.js"); EvChmod (js "a.js") rwxr_xr_x])
              eq_refl) as [_ [_ [Hcode [Hlog Hcalls]]]].
  split; [exact Hcode | split; [exact Hlog | split; [exact Hcalls |]]].
  split; reflexivity.
Defined.

End SetExecutableScenarios.

(* ===================================================================== *)
(** ** package-and-install.js: the run, case by case *)
(* ===================================================================== *)

Section PackageAndInstallRun.

Import PackageAndInstall.

Variable os : refusal.
Variable sh : shell.
Variable cwd : jsstring.
Variable path_join : jsstring -> jsstring -> jsstring.

Local Abbreviation main := (main os sh cwd path_join).
Local Abbreviation try_block := (try_block os sh cwd path_join).
Local Abbreviation install_cmd := (install_cmd cwd path_join).

(** The whole behaviour of the script, by the outcome of packing, of the
    existence check, of installing and of deleting. *)
Lemma main_run (fs : gmap jsstring Z) :
  node main fs =
  match sh pack_cmd fs with
  | (inl e, fs1) =>
      (1, mkWorld fs1
            [ said (js "Packing the project...");
              EvExec pack_cmd Encoding_utf8;
              EvError (report e) ])
  | (inr output, fs1) =>
      let tgzFile := trim output in
      match fs1 !! tgzFile with
      | None =>
          (1, mkWorld fs1
                (until_check tgzFile ++
                 [EvError (report (not_created tgzFile))]))
      | Some _ =>
          match sh (install_cmd tgzFile) fs1 with
          | (inl e, fs2) =>
              (1, mkWorld fs2
                    (before_install tgzFile ++
                     EvExec (install_cmd tgzFile) Stdio_inherit ::
                     [EvError (report e)]))
          | (inr _, fs2) =>
              match os Unlink tgzFile with
              | Some e =>
                  (1, mkWorld fs2
                        (before_install tgzFile ++
                         EvExec (install_cmd tgzFile) Stdio_inherit ::
                         until_unlink tgzFile ++
                         [EvError (report e)]))
              | None =>
                  match fs2 !! tgzFile with
                  | Some _ =>
                      (0, mkWorld (delete tgzFile fs2)
                            (before_install tgzFile ++
                             EvExec (install_cmd tgzFile) Stdio_inherit ::
                             until_unlink tgzFile ++
                             [said (js "Temporary package file removed.")]))
                  | None =>
                      (1, mkWorld fs2
                            (before_install tgzFile ++
                             EvExec (install_cmd tgzFile) Stdio_inherit ::
                             until_unlink tgzFile ++
                             [EvError (report (ENOENT "unlink" tgzFile))]))
                  end
              end
          end
      end
  end.
Proof.
  unfold node, PackageAndInstall.main, try_catch,
    PackageAndInstall.try_block, catch_block, bind, console_log,
    console_error, execSync, existsSync, unlinkSync, throw, ret,
    process_exit, emit, with_disk.
  cbn [disk trace].
  destruct (sh pack_cmd fs) as [[e | output] fs1]; [reflexivity |].
  cbn [disk trace].
  destruct (fs1 !! trim output) as [m|] eqn:Hm.
  - rewrite bool_decide_eq_true_2 by eauto. cbn [negb disk trace].
    destruct (sh (install_cmd (trim output)) fs1) as [[e | r] fs2];
      [reflexivity |].
    cbn [disk trace].
    destruct (os Unlink (trim output)); [reflexivity |].
    destruct (fs2 !! trim output); reflexivity.
  - rewrite bool_decide_eq_false_2 by (intros [? ?]; discriminate).
    reflexivity.
Qed.

(** Case analysis on membership in a trace written out as a list. *)
Ltac in_trace :=
  repeat match goal with
    | H : _ ∈ _ ++ _ |- _ =>
        apply elem_of_app in H; destruct H as [H | H]
    | H : _ ∈ _ :: _ |- _ =>
        apply elem_of_cons in H; destruct H as [H | H];
        [try discriminate H | ]
    | H : _ ∈ [] |- _ => inversion H
    end.

(** The remaining cases of a run whose packing printed [output]. *)
Ltac run_cases output fs1 :=
  let fs2 := fresh "fs2" in
  destruct (fs1 !! output);
  [destruct (sh (install_cmd output) fs1) as [[? | ?] fs2];
   [| destruct (os Unlink output); [| destruct (fs2 !! output)]] |];
  cbn [fst snd disk trace].

(** The two command lines can never be confused. *)
Lemma install_cmd_not_pack (tgzFile : jsstring) :
  install_cmd tgzFile <> pack_cmd.
Proof. unfold PackageAndInstall.install_cmd, pack_cmd. discriminate. Qed.



(** C2. When the install command fails, the run exits with status 1,
    [unlinkSync] is never called, and the disk is left exactly as the
    failed command left it: the script has deleted nothing. *)
Theorem install_failure_keeps_archive
    (fs fs1 fs2 : gmap jsstring Z) (output : jsstring) (e : Error) :
  sh pack_cmd fs = (inr output, fs1) ->
  is_Some (fs1 !! trim output) ->
  sh (install_cmd (trim output)) fs1 = (inl e, fs2) ->
  fst (node main fs) = 1
  /\ (forall p, EvUnlink p ∉ trace (snd (node main fs)))
  /\ disk (snd (node main fs)) = fs2
  /\ trace (snd (node main fs)) =
       before_install (trim output) ++
       [EvExec (install_cmd (trim output)) Stdio_inherit;
        EvError (report e)].
Proof.
  intros Hpack [m Hm] Hinst.
  rewrite main_run, Hpack. cbn zeta. rewrite Hm, Hinst.
  cbn [fst snd disk trace].
  split; [reflexivity |].
  split; [| split; reflexivity].
  intros p Hp. unfold before_install, until_check, said in Hp.
  in_trace.
Qed.

(** C3. When the trimmed packaging output names no file, the script
    throws "Failed to create .tgz file: <name>" right after the check:
    the only command ever run is the packaging one, [unlinkSync] is not
    called, the disk is as packing left it, and the run exits with 1. *)
Theorem missing_archive_is_a_hard_stop
    (fs fs1 : gmap jsstring Z) (output : jsstring) :
  sh pack_cmd fs = (inr output, fs1) ->
  fs1 !! trim output = None ->
  fst (node main fs) = 1
  /\ trace (snd (node main fs)) =
       until_check (trim output) ++
       [EvError (report (not_created (trim output)))]
  /\ message (not_created (trim output)) =
       js "Failed to create .tgz file: " ++ trim output
  /\ (forall cmd o, EvExec cmd o ∈ trace (snd (node main fs)) ->
                    cmd = pack_cmd /\ cmd <> install_cmd (trim output))
  /\ (forall p, EvUnlink p ∉ trace (snd (node main fs)))
  /\ disk (snd (node main fs)) = fs1.
Proof.
  intros Hpack Hm.
  rewrite main_run, Hpack. cbn zeta. rewrite Hm.
  cbn [fst snd disk trace].
  split; [reflexivity |].
  split; [reflexivity |].
  split; [reflexivity |].
  split; [| split; [| reflexivity]].
  - intros cmd o Hc. unfold until_check, said in Hc. in_trace.
    injection Hc as -> _.
    split; [reflexivity |].
    intros Heq. symmetry in Heq. exact (install_cmd_not_pack _ Heq).
  - intros p Hp. unfold until_check, said in Hp. in_trace.
Qed.

(** What the guarded block does decides the run: a thrown error reaches
    the handler, which logs it and exits with 1. *)
Lemma main_catches (fs : gmap jsstring Z) (e : Error) (wb : world) :
  try_block (mkWorld fs []) = (Throw e, wb) ->
  node main fs = (1, emit (EvError (report e)) wb).
Proof.
  intros Ht. unfold node, PackageAndInstall.main, try_catch.
  rewrite Ht. reflexivity.
Qed.

Lemma main_completes (fs : gmap jsstring Z) (wb : world) :
  try_block (mkWorld fs []) = (Normal tt, wb) ->
  node main fs = (0, wb).
Proof.
  intros Ht. unfold node, PackageAndInstall.main, try_catch.
  rewrite Ht. reflexivity.
Qed.

(** C4. Whatever one of the four steps throws is handled by the one
    top-level handler: the run then makes exactly one [console.error]
    call, with the error's message, and exits with status 1.  This is so
    when packing fails, when the archive is missing, when installing
    fails, and when deleting fails, be it refused by the operating system
    or because the archive is gone.  A run in which all four steps
    complete, the delete included, makes no [console.error] call and
    exits with status 0. *)
Theorem top_level_failure_semantics (fs : gmap jsstring Z) :
  (forall e wb,
      try_block (mkWorld fs []) = (Throw e, wb) ->
      node main fs = (1, emit (EvError (report e)) wb))
  /\ (forall wb,
        try_block (mkWorld fs []) = (Normal tt, wb) ->
        node main fs = (0, wb))
  /\ (forall e fs1,
        sh pack_cmd fs = (inl e, fs1) ->
        fst (node main fs) = 1
        /\ error_calls (trace (snd (node main fs))) = [report e])
  /\ (forall output fs1,
        sh pack_cmd fs = (inr output, fs1) ->
        fs1 !! trim output = None ->
        fst (node main fs) = 1
        /\ error_calls (trace (snd (node main fs))) =
             [report (not_created (trim output))])
  /\ (forall output fs1 e fs2,
        sh pack_cmd fs = (inr output, fs1) ->
        is_Some (fs1 !! trim output) ->
        sh (install_cmd (trim output)) fs1 = (inl e, fs2) ->
        fst (node main fs) = 1
        /\ error_calls (trace (snd (node main fs))) = [report e])
  /\ (forall output fs1 r fs2 e,
        sh pack_cmd fs = (inr output, fs1) ->
        is_Some (fs1 !! trim output) ->
        sh (install_cmd (trim output)) fs1 = (inr r, fs2) ->
        os Unlink (trim output) = Some e ->
        fst (node main fs) = 1
        /\ error_calls (trace (snd (node main fs))) = [report e])
  /\ (forall output fs1 r fs2,
        sh pack_cmd fs = (inr output, fs1) ->
        is_Some (fs1 !! trim output) ->
        sh (install_cmd (trim output)) fs1 = (inr r, fs2) ->
        os Unlink (trim output) = None ->
        fs2 !! trim output = None ->
        fst (node main fs) = 1
        /\ error_calls (trace (snd (node main fs))) =
             [report (ENOENT "unlink" (trim output))])
  /\ (forall output fs1 r fs2,
        sh pack_cmd fs = (inr output, fs1) ->
        is_Some (fs1 !! trim output) ->
        sh (install_cmd (trim output)) fs1 = (inr r, fs2) ->
        os Unlink (trim output) = None ->
        is_Some (fs2 !! trim output) ->
        fst (node main fs) = 0
        /\ error_calls (trace (snd (node main fs))) = []).
Proof.
  split; [intros e wb; apply main_catches |].
  split; [intros wb; apply main_completes |].
  rewrite main_run.
  split; [intros e fs1 ->; split; reflexivity |].
  split; [intros output fs1 -> Hm; cbn zeta; rewrite Hm;
          split; reflexivity |].
  split; [intros output fs1 e fs2 -> [m Hm] Hinst; cbn zeta;
          rewrite Hm, Hinst; split; reflexivity |].
  split; [intros output fs1 r fs2 e -> [m Hm] Hinst Hos; cbn zeta;
          rewrite Hm, Hinst, Hos; split; reflexivity |].
  split.
  - intros output fs1 r fs2 -> [m Hm] Hinst Hos H2. cbn zeta.
    rewrite Hm, Hinst, Hos, H2. split; reflexivity.
  - intros output fs1 r fs2 -> [m Hm] Hinst Hos [m2 H2]. cbn zeta.
    rewrite Hm, Hinst, Hos, H2. split; reflexivity.
Qed.


(** C8. The name checked, installed and deleted is the captured output
    of the packaging command with the blanks at both ends removed and
    nothing else: the output is blanks, then the name, then blanks, and
    the name neither starts nor ends with a blank. *)
Theorem archive_name_is_trimmed_output
    (fs fs1 : gmap jsstring Z) (output : jsstring) :
  sh pack_cmd fs = (inr output, fs1) ->
  EvExists (trim output) ∈ trace (snd (node main fs))
  /\ (forall p, EvExists p ∈ trace (snd (node main fs)) -> p = trim output)
  /\ (forall p, EvUnlink p ∈ trace (snd (node main fs)) -> p = trim output)
  /\ (forall cmd o,
        EvExec cmd o ∈ trace (snd (node main fs)) ->
        cmd = pack_cmd
        \/ cmd = js "npm install -g " ++ path_join cwd (trim output))
  /\ (exists l r, blank l /\ blank r /\ output = l ++ trim output ++ r)
  /\ (forall c t, trim output = c :: t -> is_whitespace c = false)
  /\ (forall t c, trim output = t ++ [c] -> is_whitespace c = false).
Proof.
  intros Hpack.
  split; [| split; [| split; [| split]]].
  - rewrite main_run, Hpack. cbn zeta.
    assert (Hc : EvExists (trim output) ∈ until_check (trim output))
      by (right; right; left).
    run_cases (trim output) fs1; unfold before_install;
      rewrite ?elem_of_app; tauto.
  - intros p. rewrite main_run, Hpack. cbn zeta.
    run_cases (trim output) fs1;
      unfold before_install, until_check, until_unlink, said;
      intros Hp; in_trace; injection Hp as ->; reflexivity.
  - intros p. rewrite main_run, Hpack. cbn zeta.
    run_cases (trim output) fs1;
      unfold before_install, until_check, until_unlink, said;
      intros Hp; in_trace; injection Hp as ->; reflexivity.
  - intros cmd o. rewrite main_run, Hpack. cbn zeta.
    run_cases (trim output) fs1;
      unfold before_install, until_check, until_unlink, said;
      intros Hp; in_trace; injection Hp as -> _;
      solve [left; reflexivity | right; reflexivity].
  - split; [apply trim_split |].
    split; [apply trim_head | apply trim_last].
Qed.

End PackageAndInstallRun.

(* ===================================================================== *)
(** ** package-and-install.js: the scenarios, run *)
(* ===================================================================== *)

Section PackageAndInstallScenarios.

Import PackageAndInstall Scenario.

Local Abbreviation packed := (<[tgz := rw_r__r__]> (∅ : gmap jsstring Z)).
Local Abbreviation run_of os sh := (node (main os sh cwd path_join) ∅).

Lemma trim_pack_output : trim pack_output = tgz.
Proof. reflexivity. Qed.



Lemma install_failure_keeps_archive_witness :
  sh_install_fails pack_cmd ∅ = (inr pack_output, packed)
  /\ is_Some (packed !! trim pack_output)
  /\ sh_install_fails (install_cmd cwd path_join (trim pack_output)) packed
     = (inl command_failed, packed)
  /\ fst (run_of permissive sh_install_fails) = 1
  /\ disk (snd (run_of permissive sh_install_fails)) !! tgz = Some rw_r__r__.
Proof.
  assert (H1 : sh_install_fails pack_cmd ∅ = (inr pack_output, packed))
    by reflexivity.
  assert (H2 : is_Some (packed !! trim pack_output))
    by (exists rw_r__r__; reflexivity).
  assert (H3 : sh_install_fails
                 (install_cmd cwd path_join (trim pack_output)) packed
               = (inl command_failed, packed)) by reflexivity.
  split; [exact H1 | split; [exact H2 | split; [exact H3 |]]].
  destruct (install_failure_keeps_archive permissive
              sh_install_fails cwd path_join ∅ packed packed pack_output
              command_failed H1 H2 H3)
    as [Hcode [_ [Hdisk _]]].
  split; [exact Hcode |].
  rewrite Hdisk. reflexivity.
Defined.

Lemma missing_archive_is_a_hard_stop_witness :
  sh_no_archive pack_cmd ∅ = (inr pack_output, ∅)
  /\ (∅ : gmap jsstring Z) !! trim pack_output = None
  /\ fst (run_of permissive sh_no_archive) = 1
  /\ trace (snd (run_of permissive sh_no_archive)) =
     [ said (js "Packing the project...");
       EvExec (js "npm pack") Encoding_utf8;
       EvExists tgz;
       EvError [VStr (js "An error occurred:");
                VStr (js "Failed to create .tgz file: pkg-1.0.0.tgz")] ].
Proof.
  assert (H1 : sh_no_archive pack_cmd ∅ = (inr pack_output, ∅))
    by reflexivity.
  assert (H2 : (∅ : gmap jsstring Z) !! trim pack_output = None)
    by reflexivity.
  split; [exact H1 | split; [exact H2 |]].
  destruct (missing_archive_is_a_hard_stop permissive
              sh_no_archive cwd path_join ∅ ∅ pack_output H1 H2)
    as [Hcode [Htrace _]].
  split; [exact Hcode | exact Htrace].
Defined.

Lemma top_level_failure_semantics_witness :
  run_of permissive sh_pack_fails =
    (1, mkWorld ∅ [ said (js "Packing the project...");
                    EvExec pack_cmd Encoding_utf8;
                    EvError (report command_failed) ])
  /\ (fst (run_of permissive sh_pack_fails) = 1
      /\ error_calls (trace (snd (run_of permissive sh_pack_fails)))
         = [report command_failed])
  /\ (fst (run_of permissive sh_no_archive) = 1
      /\ error_calls (trace (snd (run_of permissive sh_no_archive)))
         = [report (not_created tgz)])
  /\ (fst (run_of permissive sh_install_fails) = 1
      /\ error_calls (trace (snd (run_of permissive sh_install_fails)))
         = [report command_failed])
  /\ (fst (run_of no_unlink sh_ok) = 1
      /\ error_calls (trace (snd (run_of no_unlink sh_ok)))
         = [report (EPERM "unlink" tgz)])
  /\ (fst (run_of permissive sh_install_removes) = 1
      /\ error_calls (trace (snd (run_of permissive sh_install_removes)))
         = [report (ENOENT "unlink" tgz)])
  /\ (fst (run_of permissive sh_ok) = 0
      /\ error_calls (trace (snd (run_of permissive sh_ok))) = []).
Proof.
  assert (Hsome : is_Some (packed !! trim pack_output))
    by (exists rw_r__r__; reflexivity).
  pose proof (fun os sh => top_level_failure_semantics os sh cwd path_join ∅)
    as T.
  split; [| split; [| split; [| split; [| split; [| split]]]]].
  - exact (proj1 (T permissive sh_pack_fails)
             command_failed
             (mkWorld ∅ [ said (js "Packing the project...");
                          EvExec pack_cmd Encoding_utf8 ])
             eq_refl).
  - destruct (T permissive sh_pack_fails) as (_ & _ & H & _).
    exact (H command_failed ∅ eq_refl).
  - destruct (T permissive sh_no_archive) as (_ & _ & _ & H & _).
    exact (H pack_output ∅ eq_refl eq_refl).
  - destruct (T permissive sh_install_fails) as (_ & _ & _ & _ & H & _).
    exact (H pack_output packed command_failed packed
             eq_refl Hsome eq_refl).
  - destruct (T no_unlink sh_ok) as (_ & _ & _ & _ & _ & H & _).
    exact (H pack_output packed [] packed (EPERM "unlink" tgz)
             eq_refl Hsome eq_refl eq_refl).
  - destruct (T permissive sh_install_removes)
      as (_ & _ & _ & _ & _ & _ & H & _).
    exact (H pack_output packed [] ∅
             eq_refl Hsome eq_refl eq_refl eq_refl).
  - destruct (T permissive sh_ok) as (_ & _ & _ & _ & _ & _ & _ & H).
    exact (H pack_output packed [] packed
             eq_refl Hsome eq_refl eq_refl Hsome).
Defined.


Lemma archive_name_is_trimmed_output_witness :
  sh_ok pack_cmd ∅ = (inr pack_output, packed)
  /\ EvExists tgz ∈ trace (snd (run_of permissive sh_ok))
  /\ exists l r, blank l /\ blank r /\ pack_output = l ++ tgz ++ r.
Proof.
  assert (H1 : sh_ok pack_cmd ∅ = (inr pack_output, packed))
    by reflexivity.
  split; [exact H1 |].
  destruct (archive_name_is_trimmed_output permissive
              sh_ok cwd path_join ∅ packed pack_output H1)
    as [Hex [_ [_ [_ [Hsplit _]]]]].
  split; [exact Hex | exact Hsplit].
Defined.

End PackageAndInstallScenarios.

(* ===================================================================== *)
(** ** set-executable.js: further properties *)
(* ===================================================================== *)

Section SetExecutableMore.

Import SetExecutable Observe.

Variable os : refusal.

Local Abbreviation each := (each os).
Local Abbreviation set_executable := (set_executable os).


Lemma after_loop_is_Some (l : list jsstring) (p : jsstring) (old : option Z) :
  is_Some (after_loop os l p old) <-> is_Some old.
Proof.
  unfold after_loop. destruct (decide (p ∈ l)); [| reflexivity].
  destruct (allowed os p); [apply fmap_is_Some | reflexivity].
Qed.

(** X2. The run neither creates nor removes a file: the set of paths on
    disk is the same before and after, whatever the list. *)
Theorem set_executable_keeps_paths
    (l : list jsstring) (fs : gmap jsstring Z) :
  dom (disk (snd (node (set_executable l) fs))) = dom fs.
Proof.
  apply set_eq. intros p.
  rewrite !elem_of_dom, node_set_executable_lookup.
  apply after_loop_is_Some.
Qed.

(** X3. The script cannot fail: for every list and every disk, also one
    on which no listed path exists, it exits with status 0 after calling
    [statSync] once on each path, in list order. *)
Theorem set_executable_always_exits_zero
    (l : list jsstring) (fs : gmap jsstring Z) :
  fst (node (set_executable l) fs) = 0
  /\ stat_calls (trace (snd (node (set_executable l) fs))) = l.
Proof.
  rewrite node_set_executable. simpl. split; [reflexivity |].
  destruct (set_executable_trace os l (mkWorld fs [])) as [evs [-> Hs]].
  exact Hs.
Qed.









(** X6. Running the loop on a list cut in two is running it on the first
    part and then, on the resulting disk, on the second part. *)
Theorem set_executable_runs_compose
    (l1 l2 : list jsstring) (fs : gmap jsstring Z) :
  disk (snd (node (set_executable (l1 ++ l2)) fs)) =
  disk (snd (node (set_executable l2)
               (disk (snd (node (set_executable l1) fs))))).
Proof.
  apply map_eq. intros p.
  rewrite (node_set_executable_lookup os (l1 ++ l2)).
  rewrite (node_set_executable_lookup os l2).
  rewrite (node_set_executable_lookup os l1).
  unfold after_loop.
  destruct (decide (p ∈ l1)) as [H1 | H1];
    destruct (decide (p ∈ l2)) as [H2 | H2].
  - rewrite decide_True by (rewrite elem_of_app; tauto).
    destruct (allowed os p); [| reflexivity].
    destruct (fs !! p) as [m|]; simpl; [| reflexivity].
    rewrite lor_X_BITS_idem. reflexivity.
  - rewrite decide_True by (rewrite elem_of_app; tauto). reflexivity.
  - rewrite decide_True by (rewrite elem_of_app; tauto). reflexivity.
  - rewrite decide_False by (rewrite elem_of_app; tauto). reflexivity.
Qed.


End SetExecutableMore.

Section SetExecutableMoreScenarios.

Import SetExecutable Scenario.



End SetExecutableMoreScenarios.

(* ===================================================================== *)
(** ** More facts about [trim] *)
(* ===================================================================== *)

Section TrimPadding.

Import Observe.

Lemma trimStart_blank_app (l s : jsstring) :
  blank l -> trimStart (l ++ s) = trimStart s.
Proof.
  induction 1 as [|c l Hc _ IH]; simpl; [reflexivity |].
  rewrite Hc. exact IH.
Qed.

Lemma trimStart_blank (l : jsstring) : blank l -> trimStart l = [].
Proof.
  intros Hl. rewrite <- (app_nil_r l) at 1.
  rewrite trimStart_blank_app by exact Hl. reflexivity.
Qed.

Lemma trimStart_stripped (s : jsstring) :
  (forall c t, s = c :: t -> is_whitespace c = false) -> trimStart s = s.
Proof.
  destruct s as [|c t]; [reflexivity |].
  intros H. simpl. rewrite (H c t eq_refl). reflexivity.
Qed.

Lemma trimEnd_app_blank (s r : jsstring) :
  blank r -> trimEnd (s ++ r) = trimEnd s.
Proof.
  intros Hr. unfold trimEnd. rewrite rev_app_distr.
  rewrite trimStart_blank_app by (apply blank_rev; exact Hr).
  reflexivity.
Qed.

Lemma trimEnd_stripped (s : jsstring) :
  (forall t c, s = t ++ [c] -> is_whitespace c = false) -> trimEnd s = s.
Proof.
  intros H. unfold trimEnd. rewrite trimStart_stripped.
  - apply rev_involutive.
  - intros c t Hr. apply (H (rev t) c).
    rewrite <- (rev_involutive s), Hr. reflexivity.
Qed.

(** Blanks put around a stripped string are exactly what [trim] removes. *)
Lemma trim_padded (l s r : jsstring) :
  blank l -> blank r -> stripped s -> trim (l ++ s ++ r) = s.
Proof.
  intros Hl Hr [Hhead Hlast]. unfold trim.
  rewrite trimStart_blank_app by exact Hl.
  destruct s as [|c t].
  - simpl. rewrite trimStart_blank by exact Hr. reflexivity.
  - rewrite trimStart_stripped.
    + rewrite trimEnd_app_blank by exact Hr.
      apply trimEnd_stripped. exact Hlast.
    + intros d u [= <- _]. exact (Hhead c t eq_refl).
Qed.

Lemma trim_stripped (s : jsstring) : stripped (trim s).
Proof. split; [apply trim_head | apply trim_last]. Qed.

End TrimPadding.

(* ===================================================================== *)
(** ** package-and-install.js: further properties *)
(* ===================================================================== *)

Section PackageAndInstallMore.

Import PackageAndInstall Observe.

Variable os : refusal.
Variable sh : shell.
Variable cwd : jsstring.
Variable path_join : jsstring -> jsstring -> jsstring.

Local Abbreviation main := (main os sh cwd path_join).
Local Abbreviation install_cmd := (install_cmd cwd path_join).

Ltac by_cases_of_run output fs1 :=
  let fs2 := fresh "fs2" in
  destruct (fs1 !! output);
  [destruct (sh (install_cmd output) fs1) as [[? | ?] fs2];
   [| destruct (os Unlink output); [| destruct (fs2 !! output)]] |];
  cbn [fst snd disk trace];
  unfold before_install, until_check, until_unlink, said.

(** X8. When the packaging command fails nothing else is attempted: no
    existence check, no install command, no delete; the error is reported
    once, the disk is as the failed command left it, and the run exits
    with status 1. *)
Theorem pack_failure_stops_everything
    (fs fs1 : gmap jsstring Z) (e : Error) :
  sh pack_cmd fs = (inl e, fs1) ->
  fst (node main fs) = 1
  /\ disk (snd (node main fs)) = fs1
  /\ exec_calls (trace (snd (node main fs))) = [pack_cmd]
  /\ error_calls (trace (snd (node main fs))) = [report e]
  /\ (forall p, EvExists p ∉ trace (snd (node main fs)))
  /\ (forall p, EvUnlink p ∉ trace (snd (node main fs))).
Proof.
  intros Hpack. rewrite main_run, Hpack. cbn [fst snd disk trace].
  repeat (split; [reflexivity |]).
  split; intros p Hp; unfold said in Hp;
    repeat (apply elem_of_cons in Hp; destruct Hp as [Hp | Hp];
            [discriminate Hp |]);
    inversion Hp.
Qed.

(** X9. The exit status and the console agree, whatever the commands do:
    either the run exits with 0, makes no [console.error] call and ends
    with the line "Temporary package file removed.", or it exits with 1
    and its last effect is its only [console.error] call. *)
Theorem exit_status_matches_console (fs : gmap jsstring Z) :
  (fst (node main fs) = 0
   /\ error_calls (trace (snd (node main fs))) = []
   /\ last (trace (snd (node main fs)))
      = Some (said (js "Temporary package file removed.")))
  \/ (fst (node main fs) = 1
      /\ exists e,
          error_calls (trace (snd (node main fs))) = [report e]
          /\ last (trace (snd (node main fs))) = Some (EvError (report e))).
Proof.
  rewrite main_run.
  destruct (sh pack_cmd fs) as [[e | output] fs1].
  - right. split; [reflexivity |]. exists e. split; reflexivity.
  - cbn zeta. by_cases_of_run (trim output) fs1.
    + right. split; [reflexivity |]. eexists. split; reflexivity.
    + right. split; [reflexivity |]. eexists. split; reflexivity.
    + left. repeat split.
    + right. split; [reflexivity |]. eexists. split; reflexivity.
    + right. split; [reflexivity |]. eexists. split; reflexivity.
Qed.

(** X10. The run exits with status 0 exactly when packing succeeds, the
    trimmed output names a file, installing succeeds, [unlinkSync] is not
    refused on that file and the file is still there to be deleted. *)
Theorem exits_zero_iff (fs : gmap jsstring Z) :
  fst (node main fs) = 0
  <-> exists output fs1 r fs2,
        sh pack_cmd fs = (inr output, fs1)
        /\ is_Some (fs1 !! trim output)
        /\ sh (install_cmd (trim output)) fs1 = (inr r, fs2)
        /\ os Unlink (trim output) = None
        /\ is_Some (fs2 !! trim output).
Proof.
  rewrite main_run. split.
  - destruct (sh pack_cmd fs) as [[e | output] fs1]; [discriminate |].
    cbn zeta.
    destruct (fs1 !! trim output) as [m|] eqn:Hm; [| discriminate].
    destruct (sh (install_cmd (trim output)) fs1) as [[e | r] fs2] eqn:Hi;
      [discriminate |].
    destruct (os Unlink (trim output)) as [e|] eqn:Hos; [discriminate |].
    destruct (fs2 !! trim output) as [m2|] eqn:H2; [| discriminate].
    intros _. exists output, fs1, r, fs2.
    rewrite Hm, H2. repeat split; eauto.
  - intros (output & fs1 & r & fs2 & -> & [m Hm] & Hi & Hos & [m2 H2]).
    cbn zeta. rewrite Hm, Hi, Hos, H2. reflexivity.
Qed.

(** X12. At most two commands are run and packing is always the first:
    the commands of a run are either [npm pack] alone, or [npm pack] and
    then the install command for an archive that was found on disk. *)
Theorem commands_of_a_run (fs : gmap jsstring Z) :
  exec_calls (trace (snd (node main fs))) = [pack_cmd]
  \/ exists output fs1,
      sh pack_cmd fs = (inr output, fs1)
      /\ is_Some (fs1 !! trim output)
      /\ exec_calls (trace (snd (node main fs))) =
         [pack_cmd; js "npm install -g " ++ path_join cwd (trim output)].
Proof.
  rewrite main_run.
  destruct (sh pack_cmd fs) as [[e | output] fs1] eqn:Hp.
  - left. reflexivity.
  - cbn zeta. destruct (fs1 !! trim output) as [m|] eqn:Hm.
    + right. exists output, fs1.
      split; [reflexivity | split; [eauto |]].
      destruct (sh (install_cmd (trim output)) fs1) as [[? | ?] fs2];
        [| destruct (os Unlink (trim output));
           [| destruct (fs2 !! trim output)]];
        reflexivity.
    + left. reflexivity.
Qed.

(** X13. When the packaging command prints a name with blanks around it
    (the usual trailing newline, say) and the name itself has no blank at
    either end, the name the script checks on disk is exactly that name. *)
Theorem padded_output_names_the_archive
    (fs fs1 : gmap jsstring Z) (l name r : jsstring) :
  sh pack_cmd fs = (inr (l ++ name ++ r), fs1) ->
  blank l -> blank r -> stripped name ->
  trim (l ++ name ++ r) = name
  /\ EvExists name ∈ trace (snd (node main fs))
  /\ (fs1 !! name = None ->
      error_calls (trace (snd (node main fs))) = [report (not_created name)]).
Proof.
  intros Hpack Hl Hr Hs.
  pose proof (trim_padded l name r Hl Hr Hs) as Ht.
  split; [exact Ht |].
  rewrite main_run, Hpack. cbn zeta. rewrite Ht. split.
  - by_cases_of_run name fs1;
      rewrite ?elem_of_app, !elem_of_cons; tauto.
  - intros ->. reflexivity.
Qed.

End PackageAndInstallMore.

(* ===================================================================== *)
(** ** package-and-install.js: more scenarios, run *)
(* ===================================================================== *)

Section PackageAndInstallMoreScenarios.

Import PackageAndInstall Observe Scenario.

Local Abbreviation packed := (<[tgz := rw_r__r__]> (∅ : gmap jsstring Z)).
Local Abbreviation run_of os sh := (node (main os sh cwd path_join) ∅).

Lemma pack_failure_stops_everything_witness :
  sh_pack_fails pack_cmd ∅ = (inl command_failed, ∅)
  /\ fst (run_of permissive sh_pack_fails) = 1
  /\ exec_calls (trace (snd (run_of permissive sh_pack_fails)))
     = [js "npm pack"].
Proof.
  assert (H1 : sh_pack_fails pack_cmd ∅ = (inl command_failed, ∅))
    by reflexivity.
  split; [exact H1 |].
  destruct (pack_failure_stops_everything permissive
              sh_pack_fails cwd path_join ∅ ∅ command_failed H1)
    as [Hcode [_ [Hexec _]]].
  split; [exact Hcode | exact Hexec].
Defined.

Lemma exits_zero_iff_witness :
  (exists output fs1 r fs2,
      sh_ok pack_cmd ∅ = (inr output, fs1)
      /\ is_Some (fs1 !! trim output)
      /\ sh_ok (install_cmd cwd path_join (trim output)) fs1 = (inr r, fs2)
      /\ permissive Unlink (trim output) = None
      /\ is_Some (fs2 !! trim output))
  /\ fst (run_of permissive sh_ok) = 0.
Proof.
  assert (Hsome : is_Some (packed !! trim pack_output))
    by (exists rw_r__r__; reflexivity).
  assert (Hex : exists output fs1 r fs2,
             sh_ok pack_cmd ∅ = (inr output, fs1)
             /\ is_Some (fs1 !! trim output)
             /\ sh_ok (install_cmd cwd path_join (trim output)) fs1
                = (inr r, fs2)
             /\ permissive Unlink (trim output) = None
             /\ is_Some (fs2 !! trim output)).
  { exists pack_output, packed, [], packed.
    split; [reflexivity | split; [exact Hsome |]].
    split; [reflexivity | split; [reflexivity | exact Hsome]]. }
  split; [exact Hex |].
  exact (proj2 (exits_zero_iff permissive sh_ok cwd path_join ∅) Hex).
Defined.

Lemma padded_output_names_the_archive_witness :
  sh_no_archive pack_cmd ∅ = (inr ([] ++ tgz ++ [10%N]), ∅)
  /\ blank [] /\ blank [10%N] /\ stripped tgz
  /\ trim ([] ++ tgz ++ [10%N]) = tgz
  /\ EvExists tgz ∈ trace (snd (run_of permissive sh_no_archive)).
Proof.
  assert (H1 : sh_no_archive pack_cmd ∅ = (inr ([] ++ tgz ++ [10%N]), ∅))
    by reflexivity.
  assert (Hl : blank []) by constructor.
  assert (Hr : blank [10%N]) by (constructor; [reflexivity | constructor]).
  assert (Hs : stripped tgz) by exact (trim_stripped pack_output).
  split; [exact H1 | split; [exact Hl | split; [exact Hr |]]].
  split; [exact Hs |].
  destruct (padded_output_names_the_archive permissive
              sh_no_archive cwd path_join ∅ ∅ [] tgz [10%N] H1 Hl Hr Hs)
    as [Ht [Hex _]].
  split; [exact Ht | exact Hex].
Defined.

End PackageAndInstallMoreScenarios.
